(** * Automated-Happiness-Weather-Warehouse: a shallow embedding of the ETL scripts

    [etl_weather.py] (geocoding, weather fetch, per-city load loop),
    [etl_happiness.py] (CSV upsert loader) and the control flow of
    [generate_happiness_report.py].  External services (HTTP, the database
    server's failures, the clock) are inputs of the model; the PostgreSQL
    transaction of the single connection is explicit state. *)

From Stdlib Require Import ZArith List String Ascii Bool DecimalString Floats Lia.
Set Warnings "-register-all".

Import ListNotations.
Open Scope string_scope.

(* ------------------------------------------------------------------ *)
(** ** Python values *)

(** Exceptions raised by the scripts.  [PgError] is [psycopg2.Error]
    (and its subclasses); the others are not caught by
    [except psycopg2.Error]. *)
Inductive py_exn :=
| PgError
| KeyError
| IndexError
| TypeError
| ValueError
| RequestsError      (* requests.exceptions.RequestException *)
| JSONDecodeError
| ConnectionError_   (* the builtin ConnectionError *).

Definition is_pg_error (e : py_exn) : bool :=
  match e with PgError => true | _ => false end.

(** Values produced by [response.json()]. *)
Inductive json :=
| JNull
| JBool (b : bool)
| JInt (z : Z)
| JFloat (f : float)
| JStr (s : string)
| JArr (xs : list json)
| JObj (kvs : list (string * json)).

(** Python truthiness of a decoded JSON value. *)
Definition json_truthy (j : json) : bool :=
  match j with
  | JNull => false
  | JBool b => b
  | JInt z => negb (Z.eqb z 0)
  | JFloat f => negb (PrimFloat.eqb f 0%float)
  | JStr s => negb (String.eqb s "")
  | JArr xs => match xs with [] => false | _ => true end
  | JObj kvs => match kvs with [] => false | _ => true end
  end.

(** Python truthiness of a float (0.0 and -0.0 are falsy, NaN is truthy),
    and of an optional float ([None] is falsy). *)
Definition float_truthy (f : float) : bool := negb (PrimFloat.eqb f 0%float).

Definition opt_float_truthy (o : option float) : bool :=
  match o with None => false | Some f => float_truthy f end.

(** [d[k]] on a dict decoded by [json.loads] (the last duplicate key wins). *)
Fixpoint assoc_last (k : string) (kvs : list (string * json)) : option json :=
  match kvs with
  | [] => None
  | (k', v) :: rest =>
      match assoc_last k rest with
      | Some w => Some w
      | None => if String.eqb k k' then Some v else None
      end
  end.

Definition getkey (j : json) (k : string) : py_exn + json :=
  match j with
  | JObj kvs => match assoc_last k kvs with Some v => inr v | None => inl KeyError end
  | JArr _ | JStr _ => inl TypeError       (* list/str indices must be integers *)
  | _ => inl TypeError                     (* object is not subscriptable *)
  end.

(** [j[0]]. *)
Definition index0 (j : json) : py_exn + json :=
  match j with
  | JArr (x :: _) => inr x
  | JArr [] => inl IndexError
  | JStr (String c _) => inr (JStr (String c EmptyString))
  | JStr EmptyString => inl IndexError
  | JObj _ => inl KeyError                 (* key 0 is never a JSON key *)
  | _ => inl TypeError
  end.

Definition bind_exn {A B} (m : py_exn + A) (f : A -> py_exn + B) : py_exn + B :=
  match m with inl e => inl e | inr a => f a end.

Notation "x <- m ;; k" := (bind_exn m (fun x => k))
  (at level 61, m at next level, right associativity).

(** [str(n)] for a Python int. *)
Definition py_str_int (z : Z) : string := NilEmpty.string_of_int (Z.to_int z).

(** Python whitespace for [str.split()] / [str.strip()] (ASCII part). *)
Definition is_space (c : ascii) : bool :=
  match nat_of_ascii c with
  | 32 | 9 | 10 | 11 | 12 | 13 => true
  | _ => false
  end.

(** [s.split()]: maximal runs of non-whitespace, in order. *)
Fixpoint split_ws_aux (s : string) (cur : string) : list string :=
  match s with
  | EmptyString => if String.eqb cur "" then [] else [cur]
  | String c rest =>
      if is_space c
      then (if String.eqb cur "" then [] else [cur]) ++ split_ws_aux rest ""
      else split_ws_aux rest (cur ++ String c EmptyString)
  end.

Definition py_split_ws (s : string) : list string := split_ws_aux s "".

(** [s.split(sep)] for a one-character separator (empty fields kept). *)
Fixpoint split_on_aux (sep : ascii) (s : string) (cur : string) : list string :=
  match s with
  | EmptyString => [cur]
  | String c rest =>
      if Ascii.eqb c sep then cur :: split_on_aux sep rest ""
      else split_on_aux sep rest (cur ++ String c EmptyString)
  end.

Definition py_split_on (sep : ascii) (s : string) : list string := split_on_aux sep s "".

Fixpoint lstrip (s : string) : string :=
  match s with
  | String c rest => if is_space c then lstrip rest else s
  | EmptyString => EmptyString
  end.

Definition rev_string (s : string) : string :=
  string_of_list_ascii (rev (list_ascii_of_string s)).

Definition py_strip (s : string) : string := rev_string (lstrip (rev_string (lstrip s))).

(** [xs[-1]] on the (never empty) result of [split]. *)
Definition last_or_raise (xs : list string) : py_exn + string :=
  match rev xs with [] => inl IndexError | x :: _ => inr x end.

(** [xs[0]]. *)
Definition first_or_raise (xs : list string) : py_exn + string :=
  match xs with [] => inl IndexError | x :: _ => inr x end.

(* ------------------------------------------------------------------ *)
(** ** Lookup tables of [etl_weather.py] *)

(** [COUNTRY_MAPPING]. *)
Definition COUNTRY_MAPPING : list (string * string) :=
  [("UK", "United Kingdom"); ("US", "United States");
   ("UAE", "United Arab Emirates"); ("Turkey", "Turkiye");
   ("South Korea", "South Korea"); ("Russia", "Russia");
   ("China", "China"); ("Brazil", "Brazil")].

Fixpoint lookup_str (k : string) (m : list (string * string)) : option string :=
  match m with
  | [] => None
  | (k', v) :: rest => if String.eqb k k' then Some v else lookup_str k rest
  end.

(** [COUNTRY_MAPPING.get(raw, raw)]. *)
Definition map_country (raw : string) : string :=
  match lookup_str raw COUNTRY_MAPPING with Some v => v | None => raw end.

(** [raw_country = city.split(",")[-1].strip(); country = COUNTRY_MAPPING.get(...)]. *)
Definition country_of (city : string) : py_exn + string :=
  raw <- last_or_raise (py_split_on "," city);;
  inr (map_country (py_strip raw)).

(** The [descriptions] dict of the weather branch. *)
Definition descriptions : list (Z * string) :=
  [(0, "Clear sky"); (1, "Mainly clear"); (2, "Partly cloudy"); (3, "Overcast");
   (45, "Fog"); (48, "Depositing rime fog");
   (51, "Light drizzle"); (61, "Rain"); (71, "Snow"); (80, "Rain showers");
   (95, "Thunderstorm")]%Z.

Fixpoint lookup_Z (k : Z) (m : list (Z * string)) : option string :=
  match m with
  | [] => None
  | (k', v) :: rest => if Z.eqb k k' then Some v else lookup_Z k rest
  end.

(** [weather_desc = descriptions.get(code, f"Weather code {code}")]. *)
Definition weather_desc_of (code : Z) : string :=
  match lookup_Z code descriptions with
  | Some d => d
  | None => "Weather code " ++ py_str_int code
  end.

(** [weather_main = "Clouds" if 1 <= code <= 3 else weather_desc.split()[0]]. *)
Definition weather_main_of (code : Z) : py_exn + string :=
  if (1 <=? code)%Z && (code <=? 3)%Z then inr "Clouds"
  else first_or_raise (py_split_ws (weather_desc_of code)).

(** The two lines above on the decoded [data["weather_code"]].  A JSON
    boolean behaves as the int 0 or 1; a string, null, list or dict makes
    the comparison [1 <= code] (or the dict lookup) raise TypeError.
    Open-Meteo sends the code as a JSON integer; a float-valued code is
    not modelled and is mapped to TypeError as well. *)
Definition describe_json (code : json) : py_exn + (string * string) :=
  match code with
  | JInt z => m <- weather_main_of z;; inr (weather_desc_of z, m)
  | JBool b =>
      let z := if b then 1%Z else 0%Z in
      m <- weather_main_of z;; inr (weather_desc_of z, m)
  | _ => inl TypeError
  end.

(** [CITIES] of [config.py]. *)
Definition CITIES : list string :=
  ["Nairobi,Kenya"; "Mombasa,Kenya"; "Kisumu,Kenya"; "Eldoret,Kenya";
   "Nakuru,Kenya"; "Thika,Kenya"; "Nyeri,Kenya"; "Machakos,Kenya";
   "Garissa,Kenya"; "Kakamega,Kenya";
   "Lagos,Nigeria"; "Cairo,Egypt"; "Cape Town,South Africa";
   "Johannesburg,South Africa"; "Addis Ababa,Ethiopia";
   "Dar es Salaam,Tanzania"; "Accra,Ghana"; "Kampala,Uganda";
   "Luanda,Angola"; "Casablanca,Morocco";
   "London,UK"; "Paris,France"; "Berlin,Germany"; "Madrid,Spain";
   "Rome,Italy"; "Moscow,Russia"; "Beijing,China"; "Tokyo,Japan";
   "Seoul,South Korea"; "Mumbai,India"; "Dubai,UAE"; "New York,US";
   "Los Angeles,US"; "Toronto,Canada"; "Mexico City,Mexico";
   "São Paulo,Brazil"; "Buenos Aires,Argentina"; "Sydney,Australia";
   "Melbourne,Australia"; "Singapore,Singapore"; "Bangkok,Thailand";
   "Istanbul,Turkey"; "Riyadh,Saudi Arabia"; "Jakarta,Indonesia"].

(* ------------------------------------------------------------------ *)
(** ** HTTP *)

(** The outcome of one [requests.get]: it raised, or a response with a
    status code and a body ([None]: not valid JSON, [response.json()]
    raises). *)
Inductive http_result :=
| HttpRaise
| HttpResp (status : Z) (body : option json).

Definition response_json (body : option json) : py_exn + json :=
  match body with Some j => inr j | None => inl JSONDecodeError end.

(* ------------------------------------------------------------------ *)
(** ** The warehouse tables and the connection's transaction *)

Record city_row := mk_city {
  city_id : Z;
  city_name : string;
  country_name : string }.

Record snap_row := mk_snap {
  s_city_id : Z;
  temperature_celsius : json;
  feels_like_celsius : json;
  humidity_percent : json;
  weather_main : string;
  weather_description : string;
  wind_speed_mps : json;
  fetch_date : Z }.

Record tables := mk_tables {
  dim_city : list city_row;
  fact_weather_snapshot : list snap_row }.

(** The database: its tables and the (non-transactional) [city_id] sequence. *)
Record warehouse := mk_wh {
  wh_tables : tables;
  city_id_seq : Z }.

(** One open psycopg2 connection: the last committed tables, the tables as
    seen inside the open transaction, and the sequence. *)
Record conn := mk_conn {
  committed : tables;
  work : tables;
  seq : Z }.

Definition connect (w : warehouse) : conn :=
  mk_conn (wh_tables w) (wh_tables w) (city_id_seq w).

Definition commit (c : conn) : conn := mk_conn (work c) (work c) (seq c).

Definition rollback (c : conn) : conn := mk_conn (committed c) (committed c) (seq c).

(** Closing (or dropping) the connection discards the open transaction. *)
Definition close (c : conn) : warehouse := mk_wh (committed c) (seq c).

Fixpoint find_city (name : string) (rs : list city_row) : option Z :=
  match rs with
  | [] => None
  | r :: rest => if String.eqb (city_name r) name then Some (city_id r) else find_city name rest
  end.

(** [INSERT INTO dim_city (city_name, country_name) VALUES (%s, %s)
     ON CONFLICT (city_name) DO UPDATE SET country_name = EXCLUDED.country_name
     RETURNING city_id]: the new tables, the returned id and the sequence
    (the serial default draws a value on every execution). *)
Definition upsert_city (t : tables) (sq : Z) (name country : string) : tables * Z * Z :=
  match find_city name (dim_city t) with
  | Some id =>
      (mk_tables
         (map (fun r => if String.eqb (city_name r) name
                        then mk_city (city_id r) (city_name r) country else r)
              (dim_city t))
         (fact_weather_snapshot t),
       id, (sq + 1)%Z)
  | None =>
      (mk_tables (dim_city t ++ [mk_city sq name country]) (fact_weather_snapshot t),
       sq, (sq + 1)%Z)
  end.

(** Modelled from the spec: the DDL of [fact_weather_snapshot] is not part
    of the repository.  Section 3 of the spec says duplicate inserts for the
    same city and time are ignored, so the unique constraint that
    [ON CONFLICT DO NOTHING] reacts to is the pair (city id, fetch time). *)
Definition snap_conflict (a b : snap_row) : bool :=
  Z.eqb (s_city_id a) (s_city_id b) && Z.eqb (fetch_date a) (fetch_date b).

(** [INSERT INTO fact_weather_snapshot (...) VALUES (...) ON CONFLICT DO NOTHING]. *)
Definition insert_snapshot (t : tables) (s : snap_row) : tables :=
  if existsb (snap_conflict s) (fact_weather_snapshot t) then t
  else mk_tables (dim_city t) (fact_weather_snapshot t ++ [s]).

(* ------------------------------------------------------------------ *)
(** ** The weather fetch *)

(** The values read from [response.json()["current"]]. *)
Record weather_vals := mk_wx {
  wx_temp : json;
  wx_apparent : json;
  wx_humidity : json;
  wx_main : string;
  wx_desc : string;
  wx_wind : json }.

(** The open-meteo request and the lines of the [if response.status_code == 200]
    branch up to the snapshot tuple: [inr None] when the status is not 200. *)
Definition fetch_weather (r : http_result) : py_exn + option weather_vals :=
  match r with
  | HttpRaise => inl RequestsError
  | HttpResp st body =>
      if Z.eqb st 200 then
        j <- response_json body;;
        data <- getkey j "current";;
        code <- getkey data "weather_code";;
        dm <- describe_json code;;
        t <- getkey data "temperature_2m";;
        a <- getkey data "apparent_temperature";;
        h <- getkey data "relative_humidity_2m";;
        w <- getkey data "wind_speed_10m";;
        inr (Some (mk_wx t a h (snd dm) (fst dm) w))
      else inr None
  end.

(* ------------------------------------------------------------------ *)
(** ** The environment of one run *)

(** The statements of a city's [try] block that go to the server. *)
Inductive db_stmt := StCityUpsert | StSnapshotInsert | StCommit.

(** What the outside world answers during a run: the geocoding and weather
    responses for each city, which statements the server rejects with a
    psycopg2 error, and the default [fetch_date] the server stamps. *)
Record env := mk_env {
  geo_http : string -> http_result;
  wx_http : string -> http_result;
  db_fails : string -> db_stmt -> bool;
  clock : string -> Z }.

(** Log lines and prints, in order. *)
Inductive log_entry :=
| GeoWarning (city : string)     (* logging.warning in fetch_coordinates *)
| DbErrorLog (city : string)     (* logging.error in the except branch *)
| LoadedPrint (city : string)    (* print after conn.commit() *).

(* ------------------------------------------------------------------ *)
(** ** [fetch_coordinates] and the per-city loop *)

Section WeatherLoader.

(** Python's [float(x)] on a decoded JSON value; [None] when it raises. *)
Variable py_float : json -> option float.

Definition float_or_raise (j : json) : py_exn + float :=
  match py_float j with Some f => inr f | None => inl ValueError end.

(** The [try] body of [fetch_coordinates]: an exception, [inr None] when the
    [if] is not taken, or the two parsed coordinates. *)
Definition geocode_try (r : http_result) : py_exn + option (float * float) :=
  match r with
  | HttpRaise => inl RequestsError
  | HttpResp st body =>
      if Z.eqb st 200 then
        j <- response_json body;;
        if json_truthy j then
          d <- index0 j;;
          latj <- getkey d "lat";;
          lat <- float_or_raise latj;;
          lonj <- getkey d "lon";;
          lon <- float_or_raise lonj;;
          inr (Some (lat, lon))
        else inr None
      else inr None
  end.

(** [fetch_coordinates(city)]: the returned pair, and whether the warning
    was logged. *)
Definition fetch_coordinates (r : http_result) : (option float * option float) * bool :=
  match geocode_try r with
  | inl _ => ((None, None), true)
  | inr None => ((None, None), false)
  | inr (Some (lat, lon)) => ((Some lat, Some lon), false)
  end.

(** How the [try] block of one city ends: normally (with whether the
    "Loaded weather" line was printed) or by an exception, with the
    connection as it is at that point. *)
Inductive try_result :=
| TryOk (c : conn) (loaded : bool)
| TryRaise (e : py_exn) (c : conn).

(** The [try] block of the loop body. *)
Definition city_try (E : env) (city country : string) (lat lon : float) (c : conn) : try_result :=
  if db_fails E city StCityUpsert then TryRaise PgError c else
  let '(t1, cid, sq1) := upsert_city (work c) (seq c) city country in
  let c1 := mk_conn (committed c) t1 sq1 in
  match fetch_weather (wx_http E city) with
  | inl e => TryRaise e c1
  | inr None => TryOk c1 false
  | inr (Some v) =>
      if db_fails E city StSnapshotInsert then TryRaise PgError c1 else
      let s := mk_snap cid (wx_temp v) (wx_apparent v) (wx_humidity v)
                       (wx_main v) (wx_desc v) (wx_wind v) (clock E city) in
      let c2 := mk_conn (committed c1) (insert_snapshot t1 s) sq1 in
      if db_fails E city StCommit then TryRaise PgError c2 else
      TryOk (commit c2) true
  end.

(** How one iteration of the loop ends: on to the next city, or an
    exception that leaves [fetch_and_load_weather]. *)
Inductive step_result :=
| Next (c : conn) (lg : list log_entry)
| Raised (e : py_exn) (c : conn) (lg : list log_entry).

(** The loop body after [lat, lon = fetch_coordinates(city)]. *)
Definition city_body (E : env) (city : string) (coords : option float * option float)
    (c : conn) (lg : list log_entry) : step_result :=
  let '(lat, lon) := coords in
  if negb (opt_float_truthy lat) || negb (opt_float_truthy lon) then Next c lg else
  match lat, lon with
  | Some la, Some lo =>
      match country_of city with
      | inl e => Raised e c lg
      | inr country =>
          match city_try E city country la lo c with
          | TryOk c' loaded => Next c' (if loaded then lg ++ [LoadedPrint city] else lg)
          | TryRaise e c' =>
              if is_pg_error e then Next (rollback c') (lg ++ [DbErrorLog city])
              else Raised e c' lg
          end
      end
  | _, _ => Next c lg
  end.

(** One iteration of [for city in CITIES]. *)
Definition process_city (E : env) (city : string) (c : conn) (lg : list log_entry) : step_result :=
  let '(coords, warned) := fetch_coordinates (geo_http E city) in
  city_body E city coords c (if warned then lg ++ [GeoWarning city] else lg).

Inductive run_result :=
| RunDone (c : conn) (lg : list log_entry)
| RunCrashed (e : py_exn) (c : conn) (lg : list log_entry).

Fixpoint run_loop (E : env) (cities : list string) (c : conn) (lg : list log_entry) : run_result :=
  match cities with
  | [] => RunDone c lg
  | city :: rest =>
      match process_city E city c lg with
      | Next c' lg' => run_loop E rest c' lg'
      | Raised e c' lg' => RunCrashed e c' lg'
      end
  end.

Definition run_conn (r : run_result) : conn :=
  match r with RunDone c _ => c | RunCrashed _ c _ => c end.

(** [fetch_and_load_weather()] over a list of cities: how the run ends, and
    the database afterwards (the connection is closed at the end, or dropped
    when an exception escapes; either way the open transaction is lost). *)
Definition fetch_and_load_weather (E : env) (cities : list string) (w : warehouse)
    : run_result * warehouse :=
  let r := run_loop E cities (connect w) [] in
  (r, close (run_conn r)).

End WeatherLoader.

(* ------------------------------------------------------------------ *)
(** ** [etl_happiness.py] *)

(** [pd.read_csv("world_happiness_2024.csv")]: the header and the rows of
    cells (a short row is padded with NaN by pandas, here [JNull]). *)
Record csv := mk_csv {
  csv_header : list string;
  csv_rows : list (list json) }.

(** The [df.rename(columns={...})] table. *)
Definition RENAME : list (string * string) :=
  [("Country name", "country_name");
   ("Ladder score", "ladder_score");
   ("Explained by: Log GDP per capita", "gdp_per_capita");
   ("Explained by: Social support", "social_support");
   ("Explained by: Healthy life expectancy", "healthy_life_expectancy");
   ("Explained by: Freedom to make life choices", "freedom_to_make_choices");
   ("Explained by: Generosity", "generosity");
   ("Explained by: Perceptions of corruption", "perceptions_of_corruption")].

Definition rename_col (h : string) : string :=
  match lookup_str h RENAME with Some v => v | None => h end.

(** [cols]. *)
Definition COLS : list string :=
  ["country_name"; "region"; "ladder_score"; "gdp_per_capita";
   "social_support"; "healthy_life_expectancy"; "freedom_to_make_choices";
   "generosity"; "perceptions_of_corruption"].

Fixpoint index_of (x : string) (xs : list string) : option nat :=
  match xs with
  | [] => None
  | y :: ys => if String.eqb x y then Some 0 else option_map S (index_of x ys)
  end.

(** The column index of each of [cols] after the rename; ["region"] is the
    column set by [df["region"] = None].  [df[cols]] raises KeyError when a
    column is missing. *)
Inductive col_src := ColAt (i : nat) | ColRegion.

Fixpoint select_cols (hdr : list string) (cs : list string) : py_exn + list col_src :=
  match cs with
  | [] => inr []
  | c :: rest =>
      src <- (if String.eqb c "region" then inr ColRegion
              else match index_of c hdr with Some i => inr (ColAt i) | None => inl KeyError end);;
      srcs <- select_cols hdr rest;;
      inr (src :: srcs)
  end.

Definition project (srcs : list col_src) (row : list json) : list json :=
  map (fun s => match s with ColAt i => nth i row JNull | ColRegion => JNull end) srcs.

(** What the loader does to the database: one [cur.execute] per row, with
    the row tuple, and the commit. *)
Inductive hap_event := ExecUpsert (params : list json) | HapCommit.

(** [load_happiness_data()]: the statements sent to the server and the rows
    of [df.head()[['country_name', 'ladder_score']]] printed under
    "Top 5 happiest:". *)
Definition load_happiness_data (f : csv) : py_exn + (list hap_event * list (json * json)) :=
  srcs <- select_cols (map rename_col (csv_header f)) COLS;;
  let df := map (project srcs) (csv_rows f) in
  let events := (map ExecUpsert df ++ [HapCommit])%list in
  let top := map (fun r => (nth 0 r JNull, nth 2 r JNull)) (firstn 5 df) in
  inr (events, top).

(* ------------------------------------------------------------------ *)
(** ** [generate_happiness_report.py] *)

Record report_row := mk_rrow {
  happiness_score : json;
  r_temperature : json;
  r_country : string;
  r_city : string }.

(** The answer to the query of [fetch_data]. *)
Inductive report_query := QueryRows (rows : list report_row) | QueryDbError.

(** The steps after [fetch_data] that may raise for reasons outside the
    model (numpy, matplotlib, the file system). *)
Inductive report_step := RStats | RMainChart | RDistChart | RInsights.

Inductive file_effect :=
| MakeDirs (dir : string)
| SaveChart (path : string)
| WriteInsights (path : string).

(** [fetch_data]: a psycopg2 error becomes ConnectionError; an empty frame
    raises ValueError (which the [except psycopg2.Error] does not catch). *)
Definition fetch_data (q : report_query) : py_exn + list report_row :=
  match q with
  | QueryDbError => inl ConnectionError_
  | QueryRows [] => inl ValueError
  | QueryRows rows => inr rows
  end.

Definition raise_if (fails : report_step -> option py_exn) (s : report_step) : py_exn + unit :=
  match fails s with Some e => inl e | None => inr tt end.

(** [generate_report]: the files written, in order, and the exception it
    re-raises, if any. *)
Definition generate_report (dir : string) (q : report_query)
    (fails : report_step -> option py_exn) : list file_effect * option py_exn :=
  match fetch_data q with
  | inl e => ([], Some e)
  | inr rows =>
      (* stats.pearsonr needs at least two points *)
      if Nat.ltb (List.length rows) 2 then ([], Some ValueError) else
      match raise_if fails RStats with inl e => ([], Some e) | inr _ =>
      match raise_if fails RMainChart with inl e => ([], Some e) | inr _ =>
      let f1 := [SaveChart (dir ++ "/happiness_vs_temperature_global.png")] in
      match raise_if fails RDistChart with inl e => (f1, Some e) | inr _ =>
      let f2 := (f1 ++ [SaveChart (dir ++ "/happiness_distributions.png")])%list in
      match raise_if fails RInsights with inl e => (f2, Some e) | inr _ =>
      ((f2 ++ [WriteInsights (dir ++ "/report_insights.txt")])%list, None)
      end end end end
  end.

(** [main()]: [HappinessReportGenerator()] creates the output directory,
    then [generate_report()] runs. *)
Definition report_main (q : report_query) (fails : report_step -> option py_exn)
    : list file_effect * option py_exn :=
  let '(fs, r) := generate_report "reports" q fails in
  (MakeDirs "reports" :: fs, r).

(* ------------------------------------------------------------------ *)
(** ** Warehouse invariants and the states the weather loader reaches *)

(** Every snapshot row's [city_id] names a [dim_city] row. *)
Definition snaps_have_parent (t : tables) : Prop :=
  forall s, In s (fact_weather_snapshot t) ->
    exists r, In r (dim_city t) /\ city_id r = s_city_id s.

(** The snapshots of [t'] that are not in [t] reference a [dim_city] row of
    [t'] named [city]. *)
Definition new_snaps_link (city : string) (t t' : tables) : Prop :=
  forall s, In s (fact_weather_snapshot t') -> ~ In s (fact_weather_snapshot t) ->
    exists r, In r (dim_city t') /\ city_id r = s_city_id s /\ city_name r = city.

(** The connection states of one run of the loader, in any environment:
    the fresh connection to a warehouse, and whatever a loop iteration
    leaves (also when an exception escapes it). *)
Inductive reach (pf : json -> option float) (E : env) : conn -> Prop :=
| reach_start w : snaps_have_parent (wh_tables w) -> reach pf E (connect w)
| reach_next city c lg c' lg' :
    reach pf E c -> process_city pf E city c lg = Next c' lg' -> reach pf E c'
| reach_raised city c lg e c' lg' :
    reach pf E c -> process_city pf E city c lg = Raised e c' lg' -> reach pf E c'.

(** [dim_city] never holds two rows with the same [city_name]. *)
Definition city_names_unique (t : tables) : Prop := NoDup (map city_name (dim_city t)).

(** Every city row of [t] (by id and name) and every snapshot of [t] is
    still in [t']. *)
Definition keeps_rows (t t' : tables) : Prop :=
  (forall r, In r (dim_city t) ->
     exists r', In r' (dim_city t') /\ city_id r' = city_id r /\ city_name r' = city_name r) /\
  incl (fact_weather_snapshot t) (fact_weather_snapshot t').



(* ------------------------------------------------------------------ *)
(** ** Concrete inputs used by the witnesses and counterexamples *)

(** [float()] on a JSON number already decoded as a float. *)
Definition float_of_number (j : json) : option float :=
  match j with JFloat f => Some f | _ => None end.

Definition nominatim_answer (lat lon : float) : http_result :=
  HttpResp 200 (Some (JArr [JObj [("lat", JFloat lat); ("lon", JFloat lon)]])).

Definition open_meteo_current (code : Z) : json :=
  JObj [("temperature_2m", JFloat 24%float); ("apparent_temperature", JFloat 25%float);
        ("relative_humidity_2m", JInt 60); ("weather_code", JInt code);
        ("wind_speed_10m", JFloat 3%float)].

Definition open_meteo_answer (code : Z) : http_result :=
  HttpResp 200 (Some (JObj [("current", open_meteo_current code)])).

(** Every city geocodes to (lat, 36.5), weather answers per city, the
    server fails the statements listed in [fails], the clock reads 1000. *)
Definition sample_env (lat : float) (wx : string -> http_result)
    (fails : string -> db_stmt -> bool) : env :=
  mk_env (fun _ => nominatim_answer lat 36.5%float) wx fails (fun _ => 1000%Z).

Definition empty_warehouse : warehouse := mk_wh (mk_tables [] []) 1.

(** A happiness CSV with the required columns whose six rows are in
    increasing order of ladder score. *)
Definition happiness_header : list string :=
  ["Country name"; "Ladder score"; "Explained by: Log GDP per capita";
   "Explained by: Social support"; "Explained by: Healthy life expectancy";
   "Explained by: Freedom to make life choices"; "Explained by: Generosity";
   "Explained by: Perceptions of corruption"].

Definition happiness_row (name : string) (score : float) : list json :=
  [JStr name; JFloat score; JFloat 1%float; JFloat 1%float; JFloat 0.5%float;
   JFloat 0.5%float; JFloat 0.25%float; JFloat 0.25%float].

Definition ascending_csv : csv :=
  mk_csv happiness_header
    [happiness_row "Afghanistan" 1%float; happiness_row "Lebanon" 2%float;
     happiness_row "Lesotho" 3%float; happiness_row "Kenya" 4%float;
     happiness_row "Brazil" 5%float; happiness_row "Finland" 6%float].

Definition is_upsert (ev : hap_event) : bool :=
  match ev with ExecUpsert _ => true | HapCommit => false end.

(* ================================================================== *)
(** * Theorems *)

(** ** The weather-code table *)

Lemma split_weather_code (s : string) :
  py_split_ws ("Weather code " ++ s) = "Weather" :: split_ws_aux ("code " ++ s) "".
Proof. reflexivity. Qed.

(** C3: a mapped code gets its table entry, an unmapped code gets exactly
    "Weather code N"; the category is "Clouds" exactly for codes 1..3 and
    otherwise the first word of the description; codes 0..3 and 999 as
    the spec lists them. *)
Theorem weather_code_category (code : Z) :
  (forall d, lookup_Z code descriptions = Some d -> weather_desc_of code = d) /\
  (lookup_Z code descriptions = None ->
     weather_desc_of code = "Weather code " ++ py_str_int code) /\
  (weather_main_of code = inr "Clouds" <-> (1 <= code <= 3)%Z) /\
  (~ (1 <= code <= 3)%Z ->
     exists w, py_split_ws (weather_desc_of code) = w :: tl (py_split_ws (weather_desc_of code))
            /\ weather_main_of code = inr w) /\
  map weather_main_of [1; 2; 3]%Z = [inr "Clouds"; inr "Clouds"; inr "Clouds"] /\
  weather_main_of 0 = inr "Clear" /\
  weather_desc_of 999 = "Weather code 999" /\
  weather_main_of 999 = inr "Weather".
Proof.
  unfold weather_desc_of, weather_main_of.
  split; [intros d H; rewrite H; reflexivity|].
  split; [intros H; rewrite H; reflexivity|].
  split; [split|].
  - destruct ((1 <=? code)%Z && (code <=? 3)%Z) eqn:Hb; intros H.
    + apply andb_true_iff in Hb as [H1 H2]; apply Z.leb_le in H1, H2; lia.
    + destruct (lookup_Z code descriptions) as [d|] eqn:Hl;
        unfold weather_desc_of in *; rewrite Hl in *.
      * revert Hl; cbn [lookup_Z descriptions];
          repeat match goal with
                 | |- context [Z.eqb code ?k] => destruct (Z.eqb code k) eqn:?
                 end;
          intros Hl; inversion Hl; subst; simpl in H; discriminate H.
      * rewrite split_weather_code in H; simpl in H; discriminate H.
  - intros [H1 H2].
    destruct ((1 <=? code)%Z && (code <=? 3)%Z) eqn:Hb; [reflexivity|].
    apply andb_false_iff in Hb as [Hb|Hb]; apply Z.leb_nle in Hb; lia.
  - split.
    + intros Hn.
      destruct ((1 <=? code)%Z && (code <=? 3)%Z) eqn:Hb.
      * apply andb_true_iff in Hb as [H1 H2]; apply Z.leb_le in H1, H2; lia.
      * destruct (lookup_Z code descriptions) as [d|] eqn:Hl;
        unfold weather_desc_of in *; rewrite Hl in *.
        -- revert Hl; cbn [lookup_Z descriptions];
             repeat match goal with
                    | |- context [Z.eqb code ?k] => destruct (Z.eqb code k) eqn:?
                    end;
             intros Hl; inversion Hl; subst; eexists; split; reflexivity.
        -- rewrite split_weather_code; eexists; split; reflexivity.
    + repeat split; reflexivity.
Qed.

(** Witness for C3 at the unmapped code 999. *)
Lemma weather_code_category_witness :
  weather_main_of 999 = inr "Weather" /\
  exists w, py_split_ws (weather_desc_of 999) = w :: tl (py_split_ws (weather_desc_of 999))
         /\ weather_main_of 999 = inr w.
Proof.
  split; [reflexivity|].
  apply (weather_code_category 999); lia.
Defined.

(** ** Facts about the statements *)

Definition step_conn (r : step_result) : conn :=
  match r with Next c _ => c | Raised _ c _ => c end.

Lemma find_city_in name rs id :
  find_city name rs = Some id ->
  exists r, In r rs /\ city_id r = id /\ city_name r = name.
Proof.
  induction rs as [|r rs IH]; simpl; [discriminate|].
  destruct (String.eqb (city_name r) name) eqn:He.
  - intros [= <-]; apply String.eqb_eq in He; exists r; auto.
  - intros H; destruct (IH H) as [r' [Hin Hr']]; exists r'; auto.
Qed.

(** The upsert keeps the snapshots, keeps every row id, and leaves a row
    with the returned id, the given name and the given country. *)
Lemma upsert_city_facts t sq name country t1 cid sq1 :
  upsert_city t sq name country = (t1, cid, sq1) ->
  fact_weather_snapshot t1 = fact_weather_snapshot t /\
  (forall r, In r (dim_city t) -> exists r', In r' (dim_city t1) /\ city_id r' = city_id r) /\
  (exists r, In r (dim_city t1) /\ city_id r = cid /\ city_name r = name /\
             country_name r = country).
Proof.
  unfold upsert_city.
  destruct (find_city name (dim_city t)) as [id|] eqn:Hf; intros [= <- <- <-]; simpl.
  - split; [reflexivity|]; split.
    + intros r Hr.
      exists (if String.eqb (city_name r) name then mk_city (city_id r) (city_name r) country else r).
      split; [apply (in_map (fun r => if String.eqb (city_name r) name
                                      then mk_city (city_id r) (city_name r) country else r)); exact Hr|].
      destruct (String.eqb (city_name r) name); reflexivity.
    + destruct (find_city_in _ _ _ Hf) as [r [Hr [Hid Hn]]].
      exists (mk_city (city_id r) (city_name r) country); simpl; repeat split; auto.
      apply in_map_iff; exists r; split; auto.
      rewrite Hn, String.eqb_refl; reflexivity.
  - split; [reflexivity|]; split.
    + intros r Hr; exists r; split; auto; apply in_or_app; left; exact Hr.
    + exists (mk_city sq name country); simpl; repeat split; auto.
      apply in_or_app; right; left; reflexivity.
Qed.

(** A row whose name differs from the upserted one, or whose country is
    the one written, is still there after the upsert. *)
Lemma upsert_city_keeps_row t sq name country t1 cid sq1 r :
  upsert_city t sq name country = (t1, cid, sq1) ->
  In r (dim_city t) -> (city_name r <> name \/ country = country_name r) ->
  exists r', In r' (dim_city t1) /\ city_name r' = city_name r /\ country_name r' = country_name r.
Proof.
  unfold upsert_city.
  destruct (find_city name (dim_city t)) as [id|]; intros [= <- <- <-] Hr Hc; simpl.
  - exists (if String.eqb (city_name r) name then mk_city (city_id r) (city_name r) country else r).
    split; [apply (in_map (fun r => if String.eqb (city_name r) name
                                    then mk_city (city_id r) (city_name r) country else r)); exact Hr|].
    destruct (String.eqb (city_name r) name) eqn:He; simpl; [|auto].
    apply String.eqb_eq in He.
    destruct Hc as [Hc | Hc]; [contradiction | auto].
  - exists r; split; auto; apply in_or_app; left; exact Hr.
Qed.

Lemma insert_snapshot_facts t s :
  dim_city (insert_snapshot t s) = dim_city t /\
  (forall x, In x (fact_weather_snapshot (insert_snapshot t s)) ->
             In x (fact_weather_snapshot t) \/ x = s).
Proof.
  unfold insert_snapshot.
  destruct (existsb (snap_conflict s) (fact_weather_snapshot t)); simpl; split; auto.
  intros x Hx; apply in_app_or in Hx as [Hx | [Hx | []]]; auto.
Qed.

Lemma upsert_keeps_parents t sq name country t1 cid sq1 :
  upsert_city t sq name country = (t1, cid, sq1) ->
  snaps_have_parent t -> snaps_have_parent t1.
Proof.
  intros Hu Hp x Hx.
  destruct (upsert_city_facts _ _ _ _ _ _ _ Hu) as [Hf [Hids _]].
  rewrite Hf in Hx; destruct (Hp x Hx) as [r [Hr Hid]].
  destruct (Hids r Hr) as [r' [Hr' Hid']]; exists r'; split; congruence.
Qed.

Lemma insert_keeps_parents t s :
  snaps_have_parent t ->
  (exists r, In r (dim_city t) /\ city_id r = s_city_id s) ->
  snaps_have_parent (insert_snapshot t s).
Proof.
  intros Hp Hs x Hx.
  destruct (insert_snapshot_facts t s) as [Hd Hin].
  rewrite Hd; destruct (Hin x Hx) as [Hx' | ->]; auto.
Qed.

Lemma no_new_snaps_link city t t' :
  (forall s, In s (fact_weather_snapshot t') -> In s (fact_weather_snapshot t)) ->
  new_snaps_link city t t'.
Proof. intros H s Hs Hn; exfalso; exact (Hn (H s Hs)). Qed.

(** The invariant at the boundaries of the loop iterations. *)
Definition conn_inv (c : conn) : Prop :=
  snaps_have_parent (committed c) /\ snaps_have_parent (work c) /\
  fact_weather_snapshot (work c) = fact_weather_snapshot (committed c).

(** How one loop iteration can end: the city is skipped; its upsert ran and
    the weather call answered non-200, raised a non-database exception, or
    led to the snapshot and the commit; [country_of] raised; or a
    psycopg2 error was rolled back. *)
Lemma process_city_cases pf E city c lg :
  (process_city pf E city c lg = Next c lg \/
   process_city pf E city c lg = Next c (lg ++ [GeoWarning city])%list) \/
  (exists country t1 cid sq1,
     country_of city = inr country /\
     upsert_city (work c) (seq c) city country = (t1, cid, sq1) /\
     (process_city pf E city c lg = Next (mk_conn (committed c) t1 sq1) lg \/
      (exists e, is_pg_error e = false /\
                 process_city pf E city c lg = Raised e (mk_conn (committed c) t1 sq1) lg) \/
      (exists s, s_city_id s = cid /\
                 process_city pf E city c lg =
                 Next (commit (mk_conn (committed c) (insert_snapshot t1 s) sq1))
                      (lg ++ [LoadedPrint city])%list))) \/
  (exists e, process_city pf E city c lg = Raised e c lg) \/
  (exists c', committed c' = committed c /\
              process_city pf E city c lg = Next (rollback c') (lg ++ [DbErrorLog city])%list).
Proof.
  unfold process_city, fetch_coordinates.
  destruct (geocode_try pf (geo_http E city)) as [e0 | [[la lo] |]]; cbv iota beta;
    [left; right; reflexivity | | left; left; reflexivity].
  unfold city_body.
  destruct (negb (opt_float_truthy (Some la)) || negb (opt_float_truthy (Some lo)));
    cbv iota beta; [left; left; reflexivity|].
  destruct (country_of city) as [e0 | country] eqn:Hc;
    [right; right; left; eexists; reflexivity|].
  unfold city_try.
  destruct (db_fails E city StCityUpsert); cbv iota beta.
  { cbv iota beta delta [is_pg_error]; right; right; right; exists c; split; reflexivity. }
  destruct (upsert_city (work c) (seq c) city country) as [[t1 cid] sq1] eqn:Hu;
    cbv iota beta.
  destruct (fetch_weather (wx_http E city)) as [e | [v |]]; cbv iota beta.
  - destruct (is_pg_error e) eqn:He.
    + right; right; right; eexists; split; [|reflexivity]; reflexivity.
    + right; left; exists country, t1, cid, sq1; repeat split; auto.
      right; left; exists e; rewrite He; auto.
  - destruct (db_fails E city StSnapshotInsert); cbv iota beta delta [is_pg_error].
    + right; right; right; eexists; split; [|reflexivity]; reflexivity.
    + destruct (db_fails E city StCommit); cbv iota beta delta [is_pg_error].
      * right; right; right; eexists; split; [|reflexivity]; reflexivity.
      * right; left; exists country, t1, cid, sq1; repeat split; auto.
        right; right; eexists; split; [|reflexivity]; reflexivity.
  - right; left; exists country, t1, cid, sq1; repeat split; auto.
Qed.

Lemma commit_step_links city t t1 sq sq1 country cid s :
  upsert_city t sq city country = (t1, cid, sq1) -> s_city_id s = cid ->
  new_snaps_link city t (insert_snapshot t1 s).
Proof.
  intros Hu Hs x Hx Hn.
  destruct (upsert_city_facts _ _ _ _ _ _ _ Hu) as [Hf [_ [r [Hr [Hid [Hname _]]]]]].
  destruct (insert_snapshot_facts t1 s) as [Hd Hin].
  destruct (Hin x Hx) as [Hx' | ->].
  - rewrite Hf in Hx'; contradiction.
  - exists r; rewrite Hd; repeat split; congruence.
Qed.

(** One loop iteration keeps [conn_inv], and every snapshot it adds
    references the row of the city it upserted. *)
Lemma process_city_inv pf E city c lg :
  conn_inv c ->
  conn_inv (step_conn (process_city pf E city c lg)) /\
  new_snaps_link city (committed c) (committed (step_conn (process_city pf E city c lg))) /\
  new_snaps_link city (work c) (work (step_conn (process_city pf E city c lg))).
Proof.
  intros [Hc [Hw Heq]].
  destruct (process_city_cases pf E city c lg)
    as [[H | H]
       | [[country [t1 [cid [sq1 [Hco [Hu [H | [[e [He H]] | [s [Hs H]]]]]]]]]]
         | [[e H] | [c' [Hc' H]]]]];
    rewrite H; unfold conn_inv; simpl.
  - split; [split; auto|]; split; apply no_new_snaps_link; auto.
  - split; [split; auto|]; split; apply no_new_snaps_link; auto.
  - destruct (upsert_city_facts _ _ _ _ _ _ _ Hu) as [Hf _].
    split; [split; [|split]|split]; auto.
    + apply (upsert_keeps_parents _ _ _ _ _ _ _ Hu Hw).
    + congruence.
    + apply no_new_snaps_link; auto.
    + apply no_new_snaps_link; rewrite Hf; auto.
  - destruct (upsert_city_facts _ _ _ _ _ _ _ Hu) as [Hf _].
    split; [split; [|split]|split]; auto.
    + apply (upsert_keeps_parents _ _ _ _ _ _ _ Hu Hw).
    + congruence.
    + apply no_new_snaps_link; auto.
    + apply no_new_snaps_link; rewrite Hf; auto.
  - destruct (upsert_city_facts _ _ _ _ _ _ _ Hu) as [Hf [_ [r [Hr [Hid _]]]]].
    assert (Hp : snaps_have_parent (insert_snapshot t1 s)).
    { apply insert_keeps_parents; [apply (upsert_keeps_parents _ _ _ _ _ _ _ Hu Hw)|].
      exists r; split; congruence. }
    split; [split; [|split]; auto|split].
    + intros x Hx Hn; apply (commit_step_links city (work c) t1 (seq c) sq1 country cid s Hu Hs x Hx).
      rewrite Heq; exact Hn.
    + apply (commit_step_links city (work c) t1 (seq c) sq1 country cid s Hu Hs).
  - split; [split; auto|]; split; apply no_new_snaps_link; auto.
  - rewrite Hc'; split; [split; auto|]; split; apply no_new_snaps_link; auto.
    rewrite Heq; auto.
Qed.

Lemma close_keeps_parents c : conn_inv c -> snaps_have_parent (wh_tables (close c)).
Proof. intros [Hc _]; exact Hc. Qed.

Lemma reach_inv pf E c : reach pf E c -> conn_inv c.
Proof.
  induction 1 as [w Hw | city c lg c' lg' _ IH H | city c lg e c' lg' _ IH H].
  - split; [|split]; auto.
  - pose proof (proj1 (process_city_inv pf E city c lg IH)) as Hi.
    rewrite H in Hi; exact Hi.
  - pose proof (proj1 (process_city_inv pf E city c lg IH)) as Hi.
    rewrite H in Hi; exact Hi.
Qed.

Lemma reach_step pf E city c lg :
  reach pf E c -> reach pf E (step_conn (process_city pf E city c lg)).
Proof.
  intros Hr; destruct (process_city pf E city c lg) as [c' lg' | e c' lg'] eqn:H; simpl.
  - exact (reach_next pf E city c lg c' lg' Hr H).
  - exact (reach_raised pf E city c lg e c' lg' Hr H).
Qed.

Lemma next_inj c c' lg lg' : Next c lg = Next c' lg' -> c = c' /\ lg = lg'.
Proof. intros H; injection H; auto. Qed.

Lemma log_snoc_inj (lg : list log_entry) x y : (lg ++ [x])%list = (lg ++ [y])%list -> x = y.
Proof. intros H; apply app_inj_tail in H; apply H. Qed.

Lemma log_snoc_neq (lg : list log_entry) x : lg <> (lg ++ [x])%list.
Proof.
  intros H; apply (f_equal (@List.length log_entry)) in H.
  rewrite length_app in H; simpl in H; lia.
Qed.

(** ** Geocoding failures *)

Lemma run_loop_cons pf E city rest c lg :
  run_loop pf E (city :: rest) c lg =
  match process_city pf E city c lg with
  | Next c' lg' => run_loop pf E rest c' lg'
  | Raised e c' lg' => RunCrashed e c' lg'
  end.
Proof. reflexivity. Qed.

Lemma city_body_none E city c lg :
  city_body E city (None, None) c lg = Next c lg.
Proof. reflexivity. Qed.

Lemma fetch_coordinates_fail pf r e :
  geocode_try pf r = inl e -> fetch_coordinates pf r = ((None, None), true).
Proof. unfold fetch_coordinates; intros ->; reflexivity. Qed.

Lemma fetch_coordinates_skip pf r :
  geocode_try pf r = inr None -> fetch_coordinates pf r = ((None, None), false).
Proof. unfold fetch_coordinates; intros ->; reflexivity. Qed.

(** C5: when geocoding raises, answers with a status other than 200, or
    answers an empty JSON array, [fetch_coordinates] returns
    [(None, None)], the iteration leaves the connection (and so every
    table) as it was, and the loop goes on with the next city. *)
Theorem geocode_failure_skips_city pf E city c lg rest :
  (exists e, geocode_try pf (geo_http E city) = inl e) \/
  (exists st b, geo_http E city = HttpResp st b /\ st <> 200%Z) \/
  geo_http E city = HttpResp 200 (Some (JArr [])) ->
  fst (fetch_coordinates pf (geo_http E city)) = (None, None) /\
  exists lg', (lg' = lg \/ lg' = lg ++ [GeoWarning city])%list /\
    process_city pf E city c lg = Next c lg' /\
    run_loop pf E (city :: rest) c lg = run_loop pf E rest c lg'.
Proof.
  intros H.
  assert (Hfc : fetch_coordinates pf (geo_http E city) = ((None, None), true) \/
                fetch_coordinates pf (geo_http E city) = ((None, None), false)).
  { destruct H as [[e He] | [[st [b [Hr Hst]]] | Hr]].
    - left; apply (fetch_coordinates_fail _ _ e He).
    - right; apply fetch_coordinates_skip; rewrite Hr; simpl.
      apply Z.eqb_neq in Hst; rewrite Hst; reflexivity.
    - right; apply fetch_coordinates_skip; rewrite Hr; reflexivity. }
  destruct Hfc as [Hfc | Hfc]; (split; [rewrite Hfc; reflexivity|]).
  - assert (Hp : process_city pf E city c lg = Next c (lg ++ [GeoWarning city])%list)
      by (unfold process_city; rewrite Hfc; reflexivity).
    exists (lg ++ [GeoWarning city])%list; repeat split; auto.
    rewrite run_loop_cons, Hp; reflexivity.
  - assert (Hp : process_city pf E city c lg = Next c lg)
      by (unfold process_city; rewrite Hfc; reflexivity).
    exists lg; repeat split; auto.
    rewrite run_loop_cons, Hp; reflexivity.
Qed.

(** Witness for C5: a city whose geocoding request raises. *)
Lemma geocode_failure_skips_city_witness :
  let E := mk_env (fun _ => HttpRaise) (fun _ => open_meteo_answer 0)
                  (fun _ _ => false) (fun _ => 0%Z) in
  geocode_try float_of_number (geo_http E "Nairobi,Kenya") = inl RequestsError /\
  fst (fetch_coordinates float_of_number (geo_http E "Nairobi,Kenya")) = (None, None).
Proof.
  intros E; split; [reflexivity|].
  apply (geocode_failure_skips_city float_of_number E "Nairobi,Kenya"
           (connect empty_warehouse) [] []).
  left; exists RequestsError; reflexivity.
Defined.

(** C9: the loop skips a city whenever either coordinate is falsy, and a
    geocoding answer with latitude or longitude equal to 0.0 is handled
    exactly like a failed geocoding: no statement, on to the next city. *)
Theorem zero_coordinate_skips_city pf E city c lg rest lat lon :
  geocode_try pf (geo_http E city) = inr (Some (lat, lon)) ->
  (PrimFloat.eqb lat 0%float = true \/ PrimFloat.eqb lon 0%float = true) ->
  (forall la lo, opt_float_truthy la = false \/ opt_float_truthy lo = false ->
     city_body E city (la, lo) c lg = Next c lg) /\
  city_body E city (Some lat, Some lon) c lg = city_body E city (None, None) c lg /\
  process_city pf E city c lg = Next c lg /\
  run_loop pf E (city :: rest) c lg = run_loop pf E rest c lg.
Proof.
  intros Hg Hz.
  assert (Hgen : forall la lo, opt_float_truthy la = false \/ opt_float_truthy lo = false ->
            city_body E city (la, lo) c lg = Next c lg).
  { intros la lo Hf; unfold city_body.
    destruct Hf as [Hf | Hf]; rewrite Hf; simpl; [reflexivity|].
    rewrite orb_true_r; reflexivity. }
  assert (Hb : city_body E city (Some lat, Some lon) c lg = Next c lg).
  { apply Hgen; unfold opt_float_truthy, float_truthy.
    destruct Hz as [Hz | Hz]; rewrite Hz; auto. }
  assert (Hp : process_city pf E city c lg = Next c lg).
  { unfold process_city, fetch_coordinates; rewrite Hg; exact Hb. }
  repeat split; auto.
  rewrite run_loop_cons, Hp; reflexivity.
Qed.

(** Witness for C9: Nominatim answers latitude 0.0. *)
Lemma zero_coordinate_skips_city_witness :
  let E := sample_env 0%float (fun _ => open_meteo_answer 0) (fun _ _ => false) in
  process_city float_of_number E "Nairobi,Kenya" (connect empty_warehouse) []
  = Next (connect empty_warehouse) [].
Proof.
  intros E.
  apply (zero_coordinate_skips_city float_of_number E "Nairobi,Kenya"
           (connect empty_warehouse) [] [] 0%float 36.5%float);
    [reflexivity | left; reflexivity].
Defined.

(** ** The report generator *)

(** C8: when the query returns no row, [generate_report] raises (the
    ValueError of [fetch_data], re-raised) and writes no chart and no
    insights file; [main] has only created the output directory. *)
Theorem empty_query_raises_before_output dir fails :
  generate_report dir (QueryRows []) fails = ([], Some ValueError) /\
  report_main (QueryRows []) fails = ([MakeDirs "reports"], Some ValueError).
Proof. split; reflexivity. Qed.

(** ** Failures outside the database handler *)

(** C1 (evaluated): Mombasa's weather answer has status 200 but no
    ["current"] field.  The KeyError is not a psycopg2 error: it leaves
    the loop, Kisumu is never processed, and only Nairobi's committed rows
    remain. *)
Theorem weather_missing_field_aborts_batch :
  let E := sample_env 1.5%float
             (fun c => if String.eqb c "Mombasa,Kenya" then HttpResp 200 (Some (JObj []))
                       else open_meteo_answer 2)
             (fun _ _ => false) in
  let res := fetch_and_load_weather float_of_number E
               ["Nairobi,Kenya"; "Mombasa,Kenya"; "Kisumu,Kenya"] empty_warehouse in
  fetch_weather (wx_http E "Mombasa,Kenya") = inl KeyError /\
  (exists c lg, fst res = RunCrashed KeyError c lg) /\
  find_city "Nairobi,Kenya" (dim_city (wh_tables (snd res))) = Some 1%Z /\
  find_city "Mombasa,Kenya" (dim_city (wh_tables (snd res))) = None /\
  find_city "Kisumu,Kenya" (dim_city (wh_tables (snd res))) = None.
Proof.
  vm_compute.
  split; [reflexivity|].
  split; [do 2 eexists; reflexivity|].
  repeat split.
Qed.

(** C2 (evaluated): geocoding answers latitude 0.0 and the weather fetch
    succeeds, yet the run leaves no [dim_city] row and no snapshot. *)
Theorem zero_latitude_city_not_loaded :
  let E := sample_env 0%float (fun _ => open_meteo_answer 0) (fun _ _ => false) in
  let res := fetch_and_load_weather float_of_number E ["Nairobi,Kenya"] empty_warehouse in
  geocode_try float_of_number (geo_http E "Nairobi,Kenya") = inr (Some (0%float, 36.5%float)) /\
  (exists v, fetch_weather (wx_http E "Nairobi,Kenya") = inr (Some v)) /\
  fst res = RunDone (connect empty_warehouse) [] /\
  wh_tables (snd res) = mk_tables [] [].
Proof.
  vm_compute.
  split; [reflexivity|].
  split; [eexists; reflexivity|].
  split; reflexivity.
Qed.

(** C4 (evaluated): Nairobi's weather answer is a 503, Mombasa's snapshot
    insert is rejected by the server, Kisumu loads.  Mombasa's rollback
    also discards Nairobi's pending [dim_city] upsert, which Kisumu's
    commit would otherwise have made durable. *)
Theorem rollback_discards_earlier_pending_upsert :
  let wx := fun c => if String.eqb c "Nairobi,Kenya" then HttpResp 503 None
                     else open_meteo_answer 61 in
  let cities := ["Nairobi,Kenya"; "Mombasa,Kenya"; "Kisumu,Kenya"] in
  let bad := sample_env 1.5%float wx
               (fun c st => String.eqb c "Mombasa,Kenya" &&
                            match st with StSnapshotInsert => true | _ => false end) in
  let good := sample_env 1.5%float wx (fun _ _ => false) in
  find_city "Nairobi,Kenya"
    (dim_city (wh_tables (snd (fetch_and_load_weather float_of_number bad cities empty_warehouse))))
  = None /\
  find_city "Kisumu,Kenya"
    (dim_city (wh_tables (snd (fetch_and_load_weather float_of_number bad cities empty_warehouse))))
  <> None /\
  find_city "Nairobi,Kenya"
    (dim_city (wh_tables (snd (fetch_and_load_weather float_of_number good cities empty_warehouse))))
  <> None.
Proof.
  vm_compute.
  repeat split; discriminate.
Qed.

(** ** The happiness loader *)

(** C6 (evaluated): with six rows in increasing order of ladder score, the
    loader sends six upserts and one commit, and the rows printed under
    "Top 5 happiest:" are the first five rows of the file, which leave out
    the highest score (Finland, 6.0). *)
Theorem happiness_top5_is_file_head :
  exists evs top,
    load_happiness_data ascending_csv = inr (evs, top) /\
    List.length (filter is_upsert evs) = 6%nat /\
    last evs HapCommit = HapCommit /\
    List.length (filter (fun e => negb (is_upsert e)) evs) = 1%nat /\
    map snd top = [JFloat 1%float; JFloat 2%float; JFloat 3%float;
                   JFloat 4%float; JFloat 5%float] /\
    ~ In (JStr "Finland", JFloat 6%float) top.
Proof.
  do 2 eexists.
  split; [vm_compute; reflexivity|].
  vm_compute.
  repeat split.
  intros H; simpl in H.
  repeat (destruct H as [H | H]; [discriminate H|]); exact H.
Qed.

(** ** The snapshot/parent invariant *)

(** C7: in every connection state a run of the loader reaches (from a
    warehouse where every snapshot has its city), both the committed
    tables and the open transaction have a [dim_city] row for every
    snapshot, and so does the warehouse once the connection is closed; the
    snapshots a loop iteration adds reference the row of the city that the
    same iteration upserted, in the transaction and after its commit. *)
Theorem snapshot_has_parent_city pf E c :
  reach pf E c ->
  snaps_have_parent (committed c) /\ snaps_have_parent (work c) /\
  snaps_have_parent (wh_tables (close c)) /\
  (forall city lg,
     new_snaps_link city (committed c) (committed (step_conn (process_city pf E city c lg))) /\
     new_snaps_link city (work c) (work (step_conn (process_city pf E city c lg)))).
Proof.
  intros Hr; pose proof (reach_inv pf E c Hr) as Hi.
  destruct Hi as [Hc [Hw Heq]].
  split; [|split; [|split]]; auto.
  intros city lg; apply (process_city_inv pf E city c lg); split; auto.
Qed.

(** Witness for C7: the state after Nairobi is loaded into an empty
    warehouse. *)
Lemma snapshot_has_parent_city_witness :
  let E := sample_env 1.5%float (fun _ => open_meteo_answer 3) (fun _ _ => false) in
  let c := step_conn (process_city float_of_number E "Nairobi,Kenya" (connect empty_warehouse) []) in
  snaps_have_parent (committed c) /\ snaps_have_parent (work c).
Proof.
  intros E c.
  destruct (snapshot_has_parent_city float_of_number E c) as [H1 [H2 _]];
    [| split; assumption].
  apply reach_step; apply reach_start.
  intros s Hs; destruct Hs.
Defined.

(** ** A non-200 weather answer leaves the city upsert pending *)

(** C10: when a city's upsert succeeds and its weather answer is not 200,
    the iteration ends with the upsert in the open transaction, neither
    committed nor rolled back; the next city's commit makes it durable,
    the next city's rollback discards it, and if no later city commits,
    closing the connection loses it. *)
Theorem non200_upsert_stays_pending pf E A B c lg lat lon country t1 cid sq1 st b :
  geocode_try pf (geo_http E A) = inr (Some (lat, lon)) ->
  float_truthy lat = true -> float_truthy lon = true ->
  country_of A = inr country ->
  db_fails E A StCityUpsert = false ->
  wx_http E A = HttpResp st b -> st <> 200%Z ->
  upsert_city (work c) (seq c) A country = (t1, cid, sq1) ->
  process_city pf E A c lg = Next (mk_conn (committed c) t1 sq1) lg /\
  (exists r, In r (dim_city t1) /\ city_name r = A /\ country_name r = country) /\
  (forall c2, process_city pf E B (mk_conn (committed c) t1 sq1) lg
              = Next c2 (lg ++ [LoadedPrint B])%list ->
     committed c2 = work c2 /\
     exists r, In r (dim_city (committed c2)) /\ city_name r = A /\ country_name r = country) /\
  (forall c2, process_city pf E B (mk_conn (committed c) t1 sq1) lg
              = Next c2 (lg ++ [DbErrorLog B])%list ->
     committed c2 = committed c /\ work c2 = committed c) /\
  run_loop pf E [A] c lg = RunDone (mk_conn (committed c) t1 sq1) lg /\
  wh_tables (close (mk_conn (committed c) t1 sq1)) = committed c.
Proof.
  intros Hg Hla Hlo Hco Hd Hwx Hst Hu.
  assert (Hw : fetch_weather (wx_http E A) = inr None).
  { rewrite Hwx; simpl; apply Z.eqb_neq in Hst; rewrite Hst; reflexivity. }
  assert (HA : process_city pf E A c lg = Next (mk_conn (committed c) t1 sq1) lg).
  { unfold process_city, fetch_coordinates; rewrite Hg; cbv iota beta.
    unfold city_body, opt_float_truthy; rewrite Hla, Hlo; cbv iota beta; simpl negb.
    cbv iota beta; rewrite Hco; unfold city_try; rewrite Hd, Hu, Hw; reflexivity. }
  destruct (upsert_city_facts _ _ _ _ _ _ _ Hu) as [_ [_ [rA [HrA [_ [HnA HcA]]]]]].
  split; [exact HA|].
  split; [exists rA; auto|].
  split; [|split; [|split]].
  - intros c2 HB.
    destruct (process_city_cases pf E B (mk_conn (committed c) t1 sq1) lg)
      as [[H | H]
         | [[country' [t1' [cid' [sq1' [Hco' [Hu' [H | [[e [_ H]] | [s [_ H]]]]]]]]]]
           | [[e H] | [c' [_ H]]]]];
      rewrite HB in H; try discriminate H; apply next_inj in H as [Hc2 H]; subst c2.
    + exfalso; exact (log_snoc_neq lg _ (eq_sym H)).
    + apply log_snoc_inj in H; discriminate H.
    + exfalso; exact (log_snoc_neq lg _ (eq_sym H)).
    + simpl; split; [reflexivity|].
      destruct (insert_snapshot_facts t1' s) as [Hd' _]; rewrite Hd'.
      destruct (upsert_city_keeps_row _ _ _ _ _ _ _ rA Hu' HrA) as [r' [Hr' [Hn' Hc']]].
      * destruct (String.eqb A B) eqn:Hab.
        -- apply String.eqb_eq in Hab; subst B.
           right; rewrite Hco in Hco'; injection Hco' as ->; auto.
        -- left; apply String.eqb_neq in Hab; congruence.
      * exists r'; split; [exact Hr'|]; split; congruence.
    + apply log_snoc_inj in H; discriminate H.
  - intros c2 HB.
    destruct (process_city_cases pf E B (mk_conn (committed c) t1 sq1) lg)
      as [[H | H]
         | [[country' [t1' [cid' [sq1' [Hco' [Hu' [H | [[e [_ H]] | [s [_ H]]]]]]]]]]
           | [[e H] | [c' [Hc' H]]]]];
      rewrite HB in H; try discriminate H; apply next_inj in H as [Hc2 H]; subst c2.
    + exfalso; exact (log_snoc_neq lg _ (eq_sym H)).
    + apply log_snoc_inj in H; discriminate H.
    + exfalso; exact (log_snoc_neq lg _ (eq_sym H)).
    + apply log_snoc_inj in H; discriminate H.
    + simpl; rewrite Hc'; split; reflexivity.
  - simpl; rewrite HA; reflexivity.
  - reflexivity.
Qed.

(** Witness for C10: Nairobi's weather answer is a 503. *)
Lemma non200_upsert_stays_pending_witness :
  let E := sample_env 1.5%float (fun _ => HttpResp 503 None) (fun _ _ => false) in
  let c := connect empty_warehouse in
  process_city float_of_number E "Nairobi,Kenya" c []
  = Next (mk_conn (committed c) (mk_tables [mk_city 1 "Nairobi,Kenya" "Kenya"] []) 2) [].
Proof.
  intros E c.
  apply (non200_upsert_stays_pending float_of_number E "Nairobi,Kenya" "Mombasa,Kenya" c []
           1.5%float 36.5%float "Kenya"
           (mk_tables [mk_city 1 "Nairobi,Kenya" "Kenya"] []) 1 2 503 None);
    try reflexivity; discriminate.
Defined.

(* ================================================================== *)
(** * Further properties of the loaders *)

(** ** Loop-level induction *)

Lemma run_loop_preserves pf E (P : conn -> Prop) :
  (forall city c lg, P c -> P (step_conn (process_city pf E city c lg))) ->
  forall cities c lg, P c -> P (run_conn (run_loop pf E cities c lg)).
Proof.
  intros Hstep cities; induction cities as [|city rest IH]; intros c lg Hc; [exact Hc|].
  rewrite run_loop_cons.
  specialize (Hstep city c lg Hc).
  destruct (process_city pf E city c lg) as [c' lg' | e c' lg']; simpl in *; auto.
Qed.

(** ** City names stay unique *)

Lemma NoDup_snoc {A} (l : list A) x : NoDup l -> ~ In x l -> NoDup (l ++ [x]).
Proof.
  induction l as [|y l IH]; simpl; intros Hn Hx.
  - constructor; [intros []|constructor].
  - inversion Hn as [|? ? Hy Hl]; subst; constructor.
    + intros Hin; apply in_app_or in Hin as [Hin | [Hin | []]]; [contradiction | auto].
    + apply IH; auto.
Qed.

Lemma find_city_none name rs : find_city name rs = None -> ~ In name (map city_name rs).
Proof.
  induction rs as [|r rs IH]; simpl; [auto|].
  destruct (String.eqb (city_name r) name) eqn:He; [discriminate|].
  intros H [Hr | Hr]; [apply String.eqb_neq in He; auto | exact (IH H Hr)].
Qed.

Lemma upsert_keeps_unique t sq name country t1 cid sq1 :
  upsert_city t sq name country = (t1, cid, sq1) ->
  city_names_unique t -> city_names_unique t1.
Proof.
  unfold upsert_city, city_names_unique.
  destruct (find_city name (dim_city t)) eqn:Hf; intros [= <- _ _] Hn; simpl.
  - rewrite map_map.
    erewrite map_ext; [exact Hn|].
    intros r; destruct (String.eqb (city_name r) name); reflexivity.
  - rewrite map_app; simpl; apply NoDup_snoc; auto.
    apply find_city_none; exact Hf.
Qed.

Definition conn_unique (c : conn) : Prop :=
  city_names_unique (committed c) /\ city_names_unique (work c).

Lemma process_city_unique pf E city c lg :
  conn_unique c -> conn_unique (step_conn (process_city pf E city c lg)).
Proof.
  intros [Hc Hw].
  destruct (process_city_cases pf E city c lg)
    as [[H | H]
       | [[country [t1 [cid [sq1 [Hco [Hu [H | [[e [He H]] | [s [Hs H]]]]]]]]]]
         | [[e H] | [c' [Hc' H]]]]];
    rewrite H; unfold conn_unique; simpl; auto.
  - split; auto; apply (upsert_keeps_unique _ _ _ _ _ _ _ Hu Hw).
  - split; auto; apply (upsert_keeps_unique _ _ _ _ _ _ _ Hu Hw).
  - assert (Hi : city_names_unique (insert_snapshot t1 s)).
    { unfold city_names_unique; rewrite (proj1 (insert_snapshot_facts t1 s)).
      apply (upsert_keeps_unique _ _ _ _ _ _ _ Hu Hw). }
    split; auto.
  - rewrite Hc'; split; auto.
Qed.

(** The weather loader never creates a second [dim_city] row with the same
    [city_name]: starting from a warehouse whose city names are unique,
    they are unique after the run, whatever the APIs answer, whichever
    statements fail, and however often a city occurs in the list. *)
Theorem weather_run_keeps_city_names_unique pf E cities w :
  city_names_unique (wh_tables w) ->
  city_names_unique (wh_tables (snd (fetch_and_load_weather pf E cities w))).
Proof.
  intros Hw; unfold fetch_and_load_weather; simpl.
  assert (H : conn_unique (run_conn (run_loop pf E cities (connect w) []))).
  { apply run_loop_preserves; [apply process_city_unique | split; exact Hw]. }
  apply H.
Qed.

Lemma weather_run_keeps_city_names_unique_witness :
  city_names_unique
    (wh_tables (snd (fetch_and_load_weather float_of_number
                       (sample_env 1.5%float (fun _ => open_meteo_answer 2) (fun _ _ => false))
                       CITIES empty_warehouse))).
Proof.
  apply weather_run_keeps_city_names_unique; constructor.
Defined.

(** ** Committed data is never lost *)

Lemma keeps_rows_refl t : keeps_rows t t.
Proof. split; [intros r Hr; exists r; auto | intros x Hx; exact Hx]. Qed.

Lemma keeps_rows_trans t1 t2 t3 : keeps_rows t1 t2 -> keeps_rows t2 t3 -> keeps_rows t1 t3.
Proof.
  intros [H1 I1] [H2 I2]; split.
  - intros r Hr; destruct (H1 r Hr) as [r2 [Hr2 [Hi2 Hn2]]].
    destruct (H2 r2 Hr2) as [r3 [Hr3 [Hi3 Hn3]]]; exists r3; split; [exact Hr3|]; split; congruence.
  - intros x Hx; auto.
Qed.

Lemma upsert_keeps_rows t sq name country t1 cid sq1 :
  upsert_city t sq name country = (t1, cid, sq1) -> keeps_rows t t1.
Proof.
  unfold upsert_city.
  destruct (find_city name (dim_city t)); intros [= <- _ _]; split; simpl.
  - intros r Hr.
    exists (if String.eqb (city_name r) name then mk_city (city_id r) (city_name r) country else r).
    split; [apply (in_map (fun r => if String.eqb (city_name r) name
                                    then mk_city (city_id r) (city_name r) country else r)); exact Hr|].
    destruct (String.eqb (city_name r) name); auto.
  - intros x Hx; exact Hx.
  - intros r Hr; exists r; split; auto; apply in_or_app; left; exact Hr.
  - intros x Hx; exact Hx.
Qed.

Lemma insert_keeps_rows t s : keeps_rows t (insert_snapshot t s).
Proof.
  destruct (insert_snapshot_facts t s) as [Hd _]; split.
  - intros r Hr; exists r; rewrite Hd; auto.
  - unfold insert_snapshot; destruct (existsb (snap_conflict s) (fact_weather_snapshot t));
      simpl; intros x Hx; [exact Hx | apply in_or_app; left; exact Hx].
Qed.

Lemma process_city_keeps pf E city c lg :
  keeps_rows (committed c) (work c) ->
  keeps_rows (committed (step_conn (process_city pf E city c lg)))
             (work (step_conn (process_city pf E city c lg))) /\
  keeps_rows (committed c) (committed (step_conn (process_city pf E city c lg))).
Proof.
  intros Hk.
  destruct (process_city_cases pf E city c lg)
    as [[H | H]
       | [[country [t1 [cid [sq1 [Hco [Hu [H | [[e [He H]] | [s [Hs H]]]]]]]]]]
         | [[e H] | [c' [Hc' H]]]]];
    rewrite H; simpl; try (split; [exact Hk | apply keeps_rows_refl]).
  - split; [|apply keeps_rows_refl].
    apply (keeps_rows_trans _ _ _ Hk (upsert_keeps_rows _ _ _ _ _ _ _ Hu)).
  - split; [|apply keeps_rows_refl].
    apply (keeps_rows_trans _ _ _ Hk (upsert_keeps_rows _ _ _ _ _ _ _ Hu)).
  - split; [apply keeps_rows_refl|].
    apply (keeps_rows_trans _ _ _ Hk).
    apply (keeps_rows_trans _ _ _ (upsert_keeps_rows _ _ _ _ _ _ _ Hu) (insert_keeps_rows t1 s)).
  - rewrite Hc'; split; apply keeps_rows_refl.
Qed.

(** A run of the weather loader never removes committed data: every
    [dim_city] row (with its id and name) and every snapshot the warehouse
    held before the run is still there afterwards, whatever the APIs
    answer, whichever statements fail and whichever exception ends the
    run. *)
Theorem weather_run_never_loses_committed_rows pf E cities w :
  keeps_rows (wh_tables w) (wh_tables (snd (fetch_and_load_weather pf E cities w))).
Proof.
  unfold fetch_and_load_weather; simpl.
  assert (H : (fun c => keeps_rows (committed c) (work c) /\ keeps_rows (wh_tables w) (committed c))
                (run_conn (run_loop pf E cities (connect w) []))).
  { apply run_loop_preserves.
    - intros city c lg [Hk Hw].
      destruct (process_city_keeps pf E city c lg Hk) as [H1 H2].
      split; [exact H1 | exact (keeps_rows_trans _ _ _ Hw H2)].
    - split; apply keeps_rows_refl. }
  apply H.
Qed.

(** ** One city that goes through *)

(** When a city geocodes to two non-zero coordinates, its country parses,
    open-meteo answers 200 with every field and no statement fails, the
    iteration prints "Loaded weather" and ends with everything committed:
    the transaction is empty again, [dim_city] holds a row with the
    returned id, the city name and its country, and [fact_weather_snapshot]
    holds a row for that id at the server's [fetch_date] (the new one, or
    the one already stored for that key, which [ON CONFLICT DO NOTHING]
    keeps). *)
Theorem successful_city_commits pf E city c lg lat lon country v :
  geocode_try pf (geo_http E city) = inr (Some (lat, lon)) ->
  float_truthy lat = true -> float_truthy lon = true ->
  country_of city = inr country ->
  db_fails E city StCityUpsert = false ->
  db_fails E city StSnapshotInsert = false ->
  db_fails E city StCommit = false ->
  fetch_weather (wx_http E city) = inr (Some v) ->
  exists c' cid,
    process_city pf E city c lg = Next c' (lg ++ [LoadedPrint city])%list /\
    committed c' = work c' /\
    (exists r, In r (dim_city (committed c')) /\ city_id r = cid /\
               city_name r = city /\ country_name r = country) /\
    (exists s, In s (fact_weather_snapshot (committed c')) /\
               s_city_id s = cid /\ fetch_date s = clock E city).
Proof.
  intros Hg Hla Hlo Hco Hd1 Hd2 Hd3 Hw.
  destruct (upsert_city (work c) (seq c) city country) as [[t1 cid] sq1] eqn:Hu.
  set (s0 := mk_snap cid (wx_temp v) (wx_apparent v) (wx_humidity v)
                     (wx_main v) (wx_desc v) (wx_wind v) (clock E city)).
  exists (commit (mk_conn (committed c) (insert_snapshot t1 s0) sq1)), cid.
  split.
  { unfold process_city, fetch_coordinates; rewrite Hg; cbv iota beta.
    unfold city_body, opt_float_truthy; rewrite Hla, Hlo; cbv iota beta; simpl negb.
    cbv iota beta; rewrite Hco; unfold city_try; rewrite Hd1, Hu, Hw, Hd2, Hd3; reflexivity. }
  split; [reflexivity|].
  destruct (upsert_city_facts _ _ _ _ _ _ _ Hu) as [_ [_ [r [Hr [Hid [Hn Hc]]]]]].
  destruct (insert_snapshot_facts t1 s0) as [Hd _].
  simpl; split.
  - exists r; rewrite Hd; auto.
  - unfold insert_snapshot.
    destruct (existsb (snap_conflict s0) (fact_weather_snapshot t1)) eqn:Hx; simpl.
    + apply existsb_exists in Hx as [s' [Hs' Hcf]].
      unfold snap_conflict in Hcf; apply andb_prop in Hcf as [H1 H2].
      apply Z.eqb_eq in H1; apply Z.eqb_eq in H2.
      exists s'; split; [exact Hs'|]; split; [rewrite <- H1 | rewrite <- H2]; reflexivity.
    + exists s0; split; [apply in_or_app; right; left; reflexivity|]; split; reflexivity.
Qed.

Lemma successful_city_commits_witness :
  exists c' cid,
    process_city float_of_number
      (sample_env 1.5%float (fun _ => open_meteo_answer 2) (fun _ _ => false))
      "Nairobi,Kenya" (connect empty_warehouse) []
    = Next c' ([] ++ [LoadedPrint "Nairobi,Kenya"])%list /\
    committed c' = work c' /\
    (exists r, In r (dim_city (committed c')) /\ city_id r = cid /\
               city_name r = "Nairobi,Kenya" /\ country_name r = "Kenya") /\
    (exists s, In s (fact_weather_snapshot (committed c')) /\
               s_city_id s = cid /\ fetch_date s = 1000%Z).
Proof.
  apply (successful_city_commits float_of_number
           (sample_env 1.5%float (fun _ => open_meteo_answer 2) (fun _ _ => false))
           "Nairobi,Kenya" (connect empty_warehouse) [] 1.5%float 36.5%float "Kenya"
           (mk_wx (JFloat 24%float) (JFloat 25%float) (JInt 60) "Clouds" "Partly cloudy"
                  (JFloat 3%float)));
    vm_compute; reflexivity.
Defined.

(** ** The [except psycopg2.Error] branch *)

(** An iteration that logs the database error for its city ends with the
    open transaction rolled back to what was committed before it: the
    committed tables are untouched and nothing of this city, nor any upsert
    still pending from an earlier city, remains in the transaction. *)
Theorem db_error_resets_transaction pf E city c lg c' :
  process_city pf E city c lg = Next c' (lg ++ [DbErrorLog city])%list ->
  committed c' = committed c /\ work c' = committed c.
Proof.
  intros HB.
  destruct (process_city_cases pf E city c lg)
    as [[H | H]
       | [[country [t1 [cid [sq1 [Hco [Hu [H | [[e [_ H]] | [s [_ H]]]]]]]]]]
         | [[e H] | [c2 [Hc2 H]]]]];
    rewrite HB in H; try discriminate H; apply next_inj in H as [Hc H]; subst c'.
  - exfalso; exact (log_snoc_neq lg _ (eq_sym H)).
  - apply log_snoc_inj in H; discriminate H.
  - exfalso; exact (log_snoc_neq lg _ (eq_sym H)).
  - apply log_snoc_inj in H; discriminate H.
  - simpl; rewrite Hc2; auto.
Qed.

Lemma db_error_resets_transaction_witness :
  let c' := rollback (mk_conn (mk_tables [] [])
                               (mk_tables [mk_city 1 "Nairobi,Kenya" "Kenya"] []) 2) in
  committed c' = committed (connect empty_warehouse) /\
  work c' = committed (connect empty_warehouse).
Proof.
  apply (db_error_resets_transaction float_of_number
           (sample_env 1.5%float (fun _ => open_meteo_answer 2)
              (fun _ st => match st with StSnapshotInsert => true | _ => false end))
           "Nairobi,Kenya" (connect empty_warehouse) []).
  vm_compute; reflexivity.
Defined.

(** ** The country of a city *)

Lemma string_app_assoc (a b c : string) : ((a ++ b) ++ c)%string = (a ++ (b ++ c))%string.
Proof. induction a as [|x a IH]; simpl; [reflexivity | rewrite IH; reflexivity]. Qed.

Lemma string_app_nil_r (a : string) : (a ++ "")%string = a.
Proof. induction a as [|x a IH]; simpl; [reflexivity | rewrite IH; reflexivity]. Qed.

Lemma split_on_aux_nonempty sep s cur : split_on_aux sep s cur <> [].
Proof.
  revert cur; induction s as [|c s IH]; intros cur; simpl; [discriminate|].
  destruct (Ascii.eqb c sep); [discriminate | apply IH].
Qed.

Lemma split_on_aux_no_sep sep s cur :
  forallb (fun c => negb (Ascii.eqb c sep)) (list_ascii_of_string s) = true ->
  split_on_aux sep s cur = [(cur ++ s)%string].
Proof.
  revert cur; induction s as [|c s IH]; intros cur H; simpl in *.
  - rewrite string_app_nil_r; reflexivity.
  - apply andb_prop in H as [Hc Hs]; apply negb_true_iff in Hc; rewrite Hc.
    rewrite IH by exact Hs; rewrite string_app_assoc; reflexivity.
Qed.

Lemma split_on_aux_after_sep sep s1 s2 cur :
  exists pre, split_on_aux sep (s1 ++ String sep s2) cur = (pre ++ split_on_aux sep s2 "")%list.
Proof.
  revert cur; induction s1 as [|c s1 IH]; intros cur; simpl.
  - rewrite Ascii.eqb_refl; exists [cur]; reflexivity.
  - destruct (Ascii.eqb c sep).
    + destruct (IH "") as [pre Hp]; rewrite Hp; exists (cur :: pre); reflexivity.
    + apply IH.
Qed.

Lemma last_or_raise_snoc pre x : last_or_raise (pre ++ [x])%list = inr x.
Proof. unfold last_or_raise; rewrite rev_app_distr; reflexivity. Qed.

Lemma country_of_total city : exists country, country_of city = inr country.
Proof.
  unfold country_of, py_split_on, last_or_raise.
  destruct (rev (split_on_aux "," city "")) as [|x xs] eqn:Hr.
  - exfalso; apply (split_on_aux_nonempty "," city "").
    apply (f_equal (@rev string)) in Hr; rewrite rev_involutive in Hr; exact Hr.
  - simpl; eexists; reflexivity.
Qed.

(** [city.split(",")[-1]] never raises: whatever the city string,
    [country_of] returns a country, and never the [IndexError] branch. *)
Theorem country_of_never_raises city : exists country, country_of city = inr country.
Proof. exact (country_of_total city). Qed.

(** The country is the text after the LAST comma of the city string,
    stripped of surrounding whitespace and passed through
    [COUNTRY_MAPPING]; commas earlier in the city name do not matter. *)
Theorem country_of_after_last_comma name raw :
  forallb (fun c => negb (Ascii.eqb c ",")) (list_ascii_of_string raw) = true ->
  country_of (name ++ "," ++ raw) = inr (map_country (py_strip raw)).
Proof.
  intros Hraw; unfold country_of, py_split_on.
  destruct (split_on_aux_after_sep "," name raw "") as [pre Hp].
  change ("," ++ raw)%string with (String "," raw); rewrite Hp.
  rewrite (split_on_aux_no_sep "," raw "" Hraw); simpl.
  rewrite last_or_raise_snoc; reflexivity.
Qed.

Lemma country_of_after_last_comma_witness :
  forallb (fun c => negb (Ascii.eqb c ",")) (list_ascii_of_string " UK ") = true /\
  country_of ("London, Greater London" ++ "," ++ " UK ") = inr "United Kingdom".
Proof.
  split; [reflexivity|].
  rewrite (country_of_after_last_comma "London, Greater London" " UK " eq_refl).
  vm_compute; reflexivity.
Defined.

(** A city string without a comma is its own (stripped, mapped) country. *)
Theorem country_of_no_comma city :
  forallb (fun c => negb (Ascii.eqb c ",")) (list_ascii_of_string city) = true ->
  country_of city = inr (map_country (py_strip city)).
Proof.
  intros H; unfold country_of, py_split_on.
  rewrite (split_on_aux_no_sep "," city "" H); reflexivity.
Qed.

Lemma country_of_no_comma_witness :
  country_of "  Turkey " = inr "Turkiye".
Proof.
  rewrite (country_of_no_comma "  Turkey " eq_refl); vm_compute; reflexivity.
Defined.

(** Mapping a country name twice changes nothing: every value of
    [COUNTRY_MAPPING] is left as it is by the mapping. *)
Theorem map_country_idempotent raw : map_country (map_country raw) = map_country raw.
Proof.
  unfold map_country at 2.
  destruct (lookup_str raw COUNTRY_MAPPING) as [v|] eqn:Hl.
  - replace (map_country raw) with v by (unfold map_country; rewrite Hl; reflexivity).
    cbn [lookup_str COUNTRY_MAPPING] in Hl.
    repeat match type of Hl with
           | context [String.eqb raw ?k] =>
               destruct (String.eqb raw k); [injection Hl as <-; reflexivity|]
           end.
    discriminate Hl.
  - reflexivity.
Qed.

(** ** The weather fetch *)

Lemma split_ws_aux_cur_nonempty s cur : cur <> ""%string -> split_ws_aux s cur <> [].
Proof.
  revert cur; induction s as [|c s IH]; intros cur Hc; simpl.
  - destruct (String.eqb cur "") eqn:He; [apply String.eqb_eq in He; contradiction | discriminate].
  - destruct (is_space c).
    + destruct (String.eqb cur "") eqn:He; [apply String.eqb_eq in He; contradiction | discriminate].
    + apply IH; destruct cur; discriminate.
Qed.

Lemma weather_desc_of_head code :
  exists c rest, weather_desc_of code = String c rest /\ is_space c = false.
Proof.
  unfold weather_desc_of; cbn [lookup_Z descriptions].
  repeat match goal with
         | |- context [Z.eqb code ?k] => destruct (Z.eqb code k)
         end; do 2 eexists; split; reflexivity.
Qed.

Lemma weather_main_total code : exists m, weather_main_of code = inr m.
Proof.
  unfold weather_main_of.
  destruct ((1 <=? code)%Z && (code <=? 3)%Z); [eexists; reflexivity|].
  destruct (weather_desc_of_head code) as [c [rest [Hd Hs]]].
  rewrite Hd; unfold py_split_ws; simpl; rewrite Hs.
  destruct (split_ws_aux rest (String c "")) as [|x xs] eqn:Hx.
  - exfalso; exact (split_ws_aux_cur_nonempty rest (String c "") ltac:(discriminate) Hx).
  - eexists; reflexivity.
Qed.

(** [weather_desc.split()[0]] never raises: every description, also the
    fallback "Weather code N", has a first word, so [weather_main_of]
    always yields a main category. *)
Theorem weather_main_never_raises code : exists m, weather_main_of code = inr m.
Proof. exact (weather_main_total code). Qed.

(** The weather request yields [None] (the [if] branch is not taken)
    exactly when the server answered with a status other than 200; a
    200 answer either gives the values or raises. *)
Theorem fetch_weather_none_iff_not_200 r :
  fetch_weather r = inr None <-> exists st b, r = HttpResp st b /\ st <> 200%Z.
Proof.
  split.
  - destruct r as [|st b]; simpl; [discriminate|].
    destruct (Z.eqb st 200) eqn:Hs.
    + intros H; exfalso.
      destruct (response_json b) as [e|j]; simpl in H; [discriminate H|].
      destruct (getkey j "current") as [e|d]; simpl in H; [discriminate H|].
      destruct (getkey d "weather_code") as [e|k]; simpl in H; [discriminate H|].
      destruct (describe_json k) as [e|dm]; simpl in H; [discriminate H|].
      destruct (getkey d "temperature_2m") as [e|x]; simpl in H; [discriminate H|].
      destruct (getkey d "apparent_temperature") as [e|x']; simpl in H; [discriminate H|].
      destruct (getkey d "relative_humidity_2m") as [e|x'']; simpl in H; [discriminate H|].
      destruct (getkey d "wind_speed_10m") as [e|x''']; simpl in H; discriminate H.
    + intros _; exists st, b; split; [reflexivity | apply Z.eqb_neq; exact Hs].
  - intros [st [b [-> Hs]]]; simpl; apply Z.eqb_neq in Hs; rewrite Hs; reflexivity.
Qed.

(** What the weather request can raise: a requests exception, a JSON
    decoding error, a missing key or a wrongly typed value; never an
    [IndexError] and never a psycopg2 error, so [except psycopg2.Error]
    lets every one of them through. *)
Theorem fetch_weather_exceptions r e :
  fetch_weather r = inl e ->
  (e = RequestsError \/ e = JSONDecodeError \/ e = KeyError \/ e = TypeError) /\
  is_pg_error e = false.
Proof.
  assert (Hg : forall j k e, getkey j k = inl e -> e = KeyError \/ e = TypeError).
  { intros j k e0; destruct j as [| | | | |l|kvs]; simpl; try (intros [= <-]; auto).
    destruct (assoc_last k kvs); intros [= <-]; auto. }
  assert (Hd : forall j e, describe_json j = inl e -> e = TypeError).
  { intros j e0; destruct j as [|b|z| | | |]; simpl; try (intros [= <-]; auto).
    - intros H; exfalso.
      destruct (weather_main_total (if b then 1 else 0)%Z) as [m Hm].
      rewrite Hm in H; discriminate H.
    - intros H; exfalso.
      destruct (weather_main_total z) as [m Hm].
      rewrite Hm in H; discriminate H. }
  intros H.
  enough (e = RequestsError \/ e = JSONDecodeError \/ e = KeyError \/ e = TypeError)
    as He by (split; [exact He | destruct He as [-> | [-> | [-> | ->]]]; reflexivity]).
  destruct r as [|st b]; simpl in H; [injection H as <-; auto|].
  destruct (Z.eqb st 200); [|discriminate H].
  destruct b as [j|]; simpl in H; [|injection H as <-; auto].
  destruct (getkey j "current") as [e'|d] eqn:E1; simpl in H;
    [injection H as <-; destruct (Hg _ _ _ E1); auto|].
  destruct (getkey d "weather_code") as [e'|k] eqn:E2; simpl in H;
    [injection H as <-; destruct (Hg _ _ _ E2); auto|].
  destruct (describe_json k) as [e'|dm] eqn:E3; simpl in H;
    [injection H as <-; rewrite (Hd _ _ E3); auto|].
  destruct (getkey d "temperature_2m") as [e'|x1] eqn:E4; simpl in H;
    [injection H as <-; destruct (Hg _ _ _ E4); auto|].
  destruct (getkey d "apparent_temperature") as [e'|x2] eqn:E5; simpl in H;
    [injection H as <-; destruct (Hg _ _ _ E5); auto|].
  destruct (getkey d "relative_humidity_2m") as [e'|x3] eqn:E6; simpl in H;
    [injection H as <-; destruct (Hg _ _ _ E6); auto|].
  destruct (getkey d "wind_speed_10m") as [e'|x4] eqn:E7; simpl in H;
    [injection H as <-; destruct (Hg _ _ _ E7); auto | discriminate H].
Qed.

Lemma fetch_weather_exceptions_witness :
  (KeyError = RequestsError \/ KeyError = JSONDecodeError \/ KeyError = KeyError \/
   KeyError = TypeError) /\ is_pg_error KeyError = false.
Proof.
  apply (fetch_weather_exceptions (HttpResp 200 (Some (JObj [])))).
  reflexivity.
Defined.

(** ** Geocoding *)

(** Only the first Nominatim hit is used: the hits after it never change
    what [fetch_coordinates] computes. *)
Theorem geocode_uses_first_hit_only pf d rest :
  geocode_try pf (HttpResp 200 (Some (JArr (d :: rest)))) =
  geocode_try pf (HttpResp 200 (Some (JArr [d]))).
Proof. reflexivity. Qed.

(** [fetch_coordinates] returns both coordinates or neither, and it logs
    the warning exactly when its [try] body raised, in which case it
    returns [(None, None)]. *)
Theorem fetch_coordinates_shape pf r :
  (fst (fetch_coordinates pf r) = (None, None) \/
   exists la lo, fst (fetch_coordinates pf r) = (Some la, Some lo)) /\
  (snd (fetch_coordinates pf r) = true <-> exists e, geocode_try pf r = inl e) /\
  (snd (fetch_coordinates pf r) = true -> fst (fetch_coordinates pf r) = (None, None)).
Proof.
  unfold fetch_coordinates.
  destruct (geocode_try pf r) as [e | [[la lo] |]]; simpl.
  - split; [left; reflexivity|]; split; [split; [intros _; exists e; reflexivity | auto] | auto].
  - split; [right; exists la, lo; reflexivity|].
    split; [split; [discriminate | intros [e H]; discriminate H] | discriminate].
  - split; [left; reflexivity|].
    split; [split; [discriminate | intros [e H]; discriminate H] | discriminate].
Qed.

(** ** A database error never escapes the weather loop *)



(** ** The happiness loader *)

Lemma index_of_some x xs i : index_of x xs = Some i -> In x xs.
Proof.
  revert i; induction xs as [|y xs IH]; intros i; simpl; [discriminate|].
  destruct (String.eqb x y) eqn:He; [apply String.eqb_eq in He; auto|].
  destruct (index_of x xs) as [j|] eqn:Hj; simpl; [intros _; right; exact (IH j eq_refl) | discriminate].
Qed.

Lemma index_of_none x xs : index_of x xs = None <-> ~ In x xs.
Proof.
  induction xs as [|y xs IH]; simpl; [tauto|].
  destruct (String.eqb x y) eqn:He.
  - apply String.eqb_eq in He; subst; split; [discriminate | intros H; exfalso; auto].
  - apply String.eqb_neq in He.
    destruct (index_of x xs) as [j|] eqn:Hj; simpl.
    + split; [discriminate|]. intros H; exfalso; apply H; right; exact (index_of_some _ _ _ Hj).
    + split; [|reflexivity].
      intros _ [H|H]; [congruence | exact (proj1 IH eq_refl H)].
Qed.

Lemma select_cols_err hdr cs e :
  select_cols hdr cs = inl e ->
  e = KeyError /\ exists c, In c cs /\ c <> "region" /\ ~ In c hdr.
Proof.
  induction cs as [|a cs IH]; simpl; [discriminate|]; intros H.
  destruct (String.eqb a "region") eqn:Hr; simpl in H.
  - destruct (select_cols hdr cs) as [e0|s0] eqn:Hs; simpl in H; [|discriminate H].
    injection H as H; subst e0.
    destruct (IH eq_refl) as [He [c [Hc Hc']]]; split; [exact He|]; exists c; auto.
  - destruct (index_of a hdr) as [i|] eqn:Hi; simpl in H.
    + destruct (select_cols hdr cs) as [e0|s0] eqn:Hs; simpl in H; [|discriminate H].
      injection H as H; subst e0.
      destruct (IH eq_refl) as [He [c [Hc Hc']]]; split; [exact He|]; exists c; auto.
    + injection H as <-; split; [reflexivity|].
      exists a; split; [left; reflexivity|]; split;
        [apply String.eqb_neq; exact Hr | apply index_of_none; exact Hi].
Qed.

Lemma select_cols_missing hdr cs c :
  In c cs -> c <> "region" -> ~ In c hdr -> exists e, select_cols hdr cs = inl e.
Proof.
  intros Hc Hr Hh; induction cs as [|a cs IH]; simpl in *; [contradiction|].
  destruct Hc as [<- | Hc].
  - apply String.eqb_neq in Hr; rewrite Hr; apply index_of_none in Hh; rewrite Hh.
    eexists; reflexivity.
  - destruct (IH Hc) as [e He].
    destruct (String.eqb a "region"); [|destruct (index_of a hdr)]; simpl;
      try rewrite He; eexists; reflexivity.
Qed.


(** [df[cols]] raises [KeyError] (and nothing else) exactly when one of the
    columns of [cols] other than ["region"] is absent from the CSV after
    the rename; then no statement reaches the server. *)
Theorem happiness_missing_column_key_error f :
  (forall e, load_happiness_data f = inl e -> e = KeyError) /\
  ((exists e, load_happiness_data f = inl e) <->
   exists c, In c COLS /\ c <> "region"%string /\ ~ In c (map rename_col (csv_header f))).
Proof.
  unfold load_happiness_data.
  destruct (select_cols (map rename_col (csv_header f)) COLS) as [e|srcs] eqn:Hs; cbv beta iota delta [bind_exn].
  - destruct (select_cols_err _ _ _ Hs) as [He Hc].
    split; [intros e' [= <-]; exact He|].
    split; [intros _; exact Hc | intros _; exists e; reflexivity].
  - split; [discriminate|]; split; [intros [e H]; discriminate H|].
    intros [c [Hc [Hr Hh]]]; destruct (select_cols_missing _ _ _ Hc Hr Hh) as [e He].
    rewrite He in Hs; discriminate Hs.
Qed.




(** ** The report generator *)

(** [generate_report] writes its outputs in a fixed order and stops at the
    first failing step: the files written are always a prefix of the main
    chart, the distribution chart and the insights file, and the report
    ends without an exception exactly when all three were written. *)
Theorem report_files_are_prefix dir q fails :
  exists n,
    fst (generate_report dir q fails) =
      firstn n [SaveChart (dir ++ "/happiness_vs_temperature_global.png");
                SaveChart (dir ++ "/happiness_distributions.png");
                WriteInsights (dir ++ "/report_insights.txt")] /\
    (snd (generate_report dir q fails) = None <-> n = 3).
Proof.
  unfold generate_report.
  destruct (fetch_data q) as [e|rows]; [exists 0; simpl; split; [reflexivity | split; discriminate]|].
  destruct (Nat.ltb (List.length rows) 2);
    [exists 0; simpl; split; [reflexivity | split; discriminate]|].
  destruct (raise_if fails RStats) as [e|];
    [exists 0; simpl; split; [reflexivity | split; discriminate]|].
  destruct (raise_if fails RMainChart) as [e|];
    [exists 0; simpl; split; [reflexivity | split; discriminate]|].
  destruct (raise_if fails RDistChart) as [e|];
    [exists 1; simpl; split; [reflexivity | split; discriminate]|].
  destruct (raise_if fails RInsights) as [e|];
    [exists 2; simpl; split; [reflexivity | split; discriminate]|].
  exists 3; simpl; split; [reflexivity | split; reflexivity].
Qed.

(** [stats.pearsonr] needs two points: a query that returns fewer than two
    rows makes the report raise [ValueError] before any file is written;
    [main] has then only created the output directory. *)
Theorem report_needs_two_rows dir rows fails :
  List.length rows < 2 ->
  generate_report dir (QueryRows rows) fails = ([], Some ValueError) /\
  report_main (QueryRows rows) fails = ([MakeDirs "reports"], Some ValueError).
Proof.
  intros Hl.
  assert (H : forall d, generate_report d (QueryRows rows) fails = ([], Some ValueError)).
  { intros d; unfold generate_report.
    destruct rows as [|r rows]; [reflexivity|].
    simpl fetch_data; cbv iota beta.
    replace (Nat.ltb (List.length (r :: rows)) 2) with true by (symmetry; apply Nat.ltb_lt; exact Hl).
    reflexivity. }
  split; [apply H|]; unfold report_main; rewrite H; reflexivity.
Qed.

Lemma report_needs_two_rows_witness :
  List.length [mk_rrow (JFloat 7%float) (JFloat 20%float) "Kenya" "Nairobi,Kenya"] < 2 /\
  generate_report "reports"
    (QueryRows [mk_rrow (JFloat 7%float) (JFloat 20%float) "Kenya" "Nairobi,Kenya"])
    (fun _ => None) = ([], Some ValueError).
Proof.
  split; [simpl; lia|].
  apply (report_needs_two_rows "reports"
           [mk_rrow (JFloat 7%float) (JFloat 20%float) "Kenya" "Nairobi,Kenya"] (fun _ => None)).
  simpl; lia.
Defined.


(** ** [ON CONFLICT (city_name) DO UPDATE] *)

Lemma find_city_unique rs r :
  NoDup (map city_name rs) -> In r rs -> find_city (city_name r) rs = Some (city_id r).
Proof.
  induction rs as [|r0 rs IH]; simpl; [intros _ []|]; intros Hn Hr.
  inversion Hn as [|? ? Hnot Hn']; subst.
  destruct Hr as [<- | Hr]; [rewrite String.eqb_refl; reflexivity|].
  destruct (String.eqb (city_name r0) (city_name r)) eqn:He.
  - apply String.eqb_eq in He; exfalso; apply Hnot; rewrite He; apply in_map; exact Hr.
  - apply IH; auto.
Qed.

(** Upserting a city that is already in [dim_city] (names unique) updates
    its country in place: the returned id is the existing row's id, no row
    is added, the row now carries the new country, and the id sequence
    still advances by one. *)
Theorem upsert_existing_city_updates_in_place t sq country r :
  city_names_unique t -> In r (dim_city t) ->
  let '(t1, cid, sq1) := upsert_city t sq (city_name r) country in
  cid = city_id r /\ sq1 = (sq + 1)%Z /\
  List.length (dim_city t1) = List.length (dim_city t) /\
  In (mk_city (city_id r) (city_name r) country) (dim_city t1) /\
  fact_weather_snapshot t1 = fact_weather_snapshot t.
Proof.
  intros Hn Hr; unfold upsert_city.
  rewrite (find_city_unique _ _ Hn Hr); simpl.
  split; [reflexivity|]; split; [reflexivity|]; split; [apply length_map|]; split; [|reflexivity].
  apply (in_map (fun r0 => if String.eqb (city_name r0) (city_name r)
                           then mk_city (city_id r0) (city_name r0) country else r0)) in Hr.
  rewrite String.eqb_refl in Hr; exact Hr.
Qed.

Lemma upsert_existing_city_updates_in_place_witness :
  let t := mk_tables [mk_city 1 "Istanbul,Turkey" "Turkey"; mk_city 2 "London,UK" "UK"] [] in
  let '(t1, cid, sq1) := upsert_city t 3 "Istanbul,Turkey" "Turkiye" in
  cid = 1%Z /\ sq1 = (3 + 1)%Z /\
  List.length (dim_city t1) = List.length (dim_city t) /\
  In (mk_city 1 "Istanbul,Turkey" "Turkiye") (dim_city t1) /\
  fact_weather_snapshot t1 = fact_weather_snapshot t.
Proof.
  apply (upsert_existing_city_updates_in_place
           (mk_tables [mk_city 1 "Istanbul,Turkey" "Turkey"; mk_city 2 "London,UK" "UK"] [])
           3 "Turkiye" (mk_city 1 "Istanbul,Turkey" "Turkey")).
  - unfold city_names_unique; simpl.
    constructor; [simpl; intros [H|[]]; discriminate H | constructor; [intros [] | constructor]].
  - left; reflexivity.
Defined.
